(** * users.py: the agent / user / role reporting dashboard

    A shallow embedding of [src/users.py].  The dashboard reads
    [UserReport.csv] into a pandas DataFrame, forward-fills the four sparse
    identifying columns, drops the rows without a role and then answers five
    read-only queries over the resulting table.

    Modelling conventions.
    - A value of a DataFrame is a text, a number or a boolean, as
      [read_csv] infers per column; a cell is an [option value], [None]
      being pandas' NaN.  A number stands for its value, whether pandas
      holds it as int64 or float64 (infinities are left out).
    - The file is given as [read_csv]'s tokenizer and converters see it: the
      names of the header and, per data line, its fields, each with the
      lexical class the converters assign to it; the file is converted in
      one piece, so that a column has one type.
    - A DataFrame with the five named columns is a list of records, in index
      order; [reset_index(drop=True)] renumbers the index and is the
      identity on that representation.
    - Exceptions are values of [exn]; code that may raise returns a
      [result].  A view whose [if selected:] guard is false renders nothing
      and returns [None].
    - The streamlit / AgGrid calls only display the computed values; a view
      is modelled by the values it hands to them. *)

From Stdlib Require Import String Ascii QArith Qcanon.
From stdpp Require Import base decidable option list numbers strings sorting.

Local Open Scope string_scope.
Local Open Scope nat_scope.

(** ** Values, cells, rows and frames *)

Inductive value :=
  | VStr (s : string)
  | VNum (x : Qc)
  | VBool (b : bool).

#[global] Instance value_eq_dec : EqDecision value.
Proof. solve_decision. Defined.

Abbreviation cell := (option value).

Inductive column := AgentCode | AgentName | UserID | UserName | Role.

Record row := Row {
  agent_code : cell;
  agent_name : cell;
  user_id : cell;
  user_name : cell;
  role : cell
}.

Abbreviation frame := (list row).

#[global] Instance column_eq_dec : EqDecision column.
Proof. solve_decision. Defined.

#[global] Instance row_eq_dec : EqDecision row.
Proof. solve_decision. Defined.

(** The labels assigned on line 9, in positional order. *)
Definition label (c : column) : string :=
  match c with
  | AgentCode => "Agent Code"
  | AgentName => "Agent Name"
  | UserID => "User ID"
  | UserName => "User Name"
  | Role => "Role"
  end.

Definition columns : list column := [AgentCode; AgentName; UserID; UserName; Role].

Definition column_names : list string := label <$> columns.

(** [r[c]] *)
Definition get (c : column) (r : row) : cell :=
  match c with
  | AgentCode => agent_code r
  | AgentName => agent_name r
  | UserID => user_id r
  | UserName => user_name r
  | Role => role r
  end.

Definition set (c : column) (v : cell) (r : row) : row :=
  match c with
  | AgentCode => Row v (agent_name r) (user_id r) (user_name r) (role r)
  | AgentName => Row (agent_code r) v (user_id r) (user_name r) (role r)
  | UserID => Row (agent_code r) (agent_name r) v (user_name r) (role r)
  | UserName => Row (agent_code r) (agent_name r) (user_id r) v (role r)
  | Role => Row (agent_code r) (agent_name r) (user_id r) (user_name r) v
  end.

(** [df[c]]: the Series of one column. *)
Definition col (c : column) (df : frame) : list cell := get c <$> df.

(** ** Exceptions *)

Inductive exn :=
  | FileNotFoundError
  | EmptyDataError
  | ParserError
  | ValueError (msg : string)
  | TypeError.

Inductive result (A : Type) :=
  | Ok (a : A)
  | Raise (e : exn).
Arguments Ok {A} a.
Arguments Raise {A} e.

#[global] Instance result_ret : MRet result := λ A a, Ok a.

#[global] Instance result_bind : MBind result := λ A B f m,
  match m with
  | Ok a => f a
  | Raise e => Raise e
  end.

(** ** The Python built-ins the program calls *)

Module Python.

(** Code-point order on strings, the order of Python's [<=] on [str]. *)
Definition string_le (s1 s2 : string) : Prop := String.leb s1 s2 = true.

#[global] Instance string_le_dec : RelDecision string_le.
Proof. intros s1 s2. unfold string_le. apply _. Defined.

(** [sorted] on a list of [str]. *)
Definition sorted (l : list string) : list string := merge_sort string_le l.

(** The number a non-text value compares as ([True] is 1, [False] is 0). *)
Definition numeric (v : value) : Qc :=
  match v with
  | VNum x => x
  | VBool b => if b then 1%Qc else 0%Qc
  | VStr _ => 0%Qc
  end.

(** The order of values: texts by code point, numbers and booleans by their
    number.  A text and a number have no order in Python; they never meet in
    one column of a table that [read_csv] returns, and where that order
    would be asked for here the text comes last. *)
Definition value_le (a b : value) : Prop :=
  match a, b with
  | VStr s, VStr t => string_le s t
  | VStr _, _ => False
  | _, VStr _ => True
  | _, _ => (numeric a ≤ numeric b)%Qc
  end.

#[global] Instance value_le_dec : RelDecision value_le.
Proof. intros [s|x|b] [t|y|c]; simpl; apply _. Defined.

(** NaN is put first. *)
Definition cell_le (a b : cell) : Prop :=
  match a, b with
  | None, _ => True
  | Some _, None => False
  | Some v, Some w => value_le v w
  end.

#[global] Instance cell_le_dec : RelDecision cell_le.
Proof. intros [v|] [w|]; simpl; apply _. Defined.

Definition is_str (x : cell) : bool :=
  match x with Some (VStr _) => true | _ => false end.

(** [sorted] on the values of a column.  Comparing a [str] with a number, a
    boolean or NaN raises [TypeError], so a list that holds a text and
    something else cannot be sorted.  Numbers, booleans and NaN compare
    without raising; with NaN among them the order Python returns depends on
    where the NaN stand, and the list returned here is an ordering of the
    same values that need not be Python's. *)
Definition py_sorted (l : list cell) : result (list cell) :=
  if forallb is_str l then Ok (merge_sort cell_le l)
  else if existsb is_str l then Raise TypeError
  else Ok (merge_sort cell_le l).

(** The truth value of what a [selectbox] returns: [None] when there is no
    option; NaN is true; a text is true unless empty, a number unless
    zero. *)
Definition truthy (selected : option cell) : bool :=
  match selected with
  | None => false
  | Some None => true
  | Some (Some (VStr s)) => negb (String.eqb s "")
  | Some (Some (VNum x)) => negb (bool_decide (x = 0%Qc))
  | Some (Some (VBool b)) => b
  end.

Definition newline : string := String (ascii_of_nat 10) EmptyString.

Definition as_str (x : cell) : option string :=
  match x with Some (VStr s) => Some s | _ => None end.

(** ['\n'.join(sorted(roles))]: [join] accepts [str] items only, and
    [sorted] raises on a text beside anything else; both raise
    [TypeError]. *)
Definition join_sorted (roles : list cell) : result string :=
  match mapM as_str roles with
  | Some texts => Ok (String.concat newline (sorted texts))
  | None => Raise TypeError
  end.

End Python.

Import Python.

(** ** The pandas primitives the program calls *)

Module Pandas.

(** A field of a data line, as the converters of [read_csv] class it: a
    marker of a missing value (the empty field, [NA], [NaN], ...), a
    numeric literal with its value, one of the literals of [True] and
    [False], or any other text. *)
Inductive field :=
  | FNa
  | FNum (s : string) (x : Qc)
  | FBool (s : string) (b : bool)
  | FText (s : string).

Inductive dtype := DNum | DBool | DText.

Definition numeric_or_na (f : field) : bool :=
  match f with FNa | FNum _ _ => true | _ => false end.

Definition bool_or_na (f : field) : bool :=
  match f with FNa | FBool _ _ => true | _ => false end.

(** The type [read_csv] gives a column: numeric if every field that is not
    missing is a number, boolean if every one is a boolean, text
    otherwise. *)
Definition infer_dtype (fields : list field) : dtype :=
  if forallb numeric_or_na fields then DNum
  else if forallb bool_or_na fields then DBool
  else DText.

(** In a text column a literal stays the text it is written as. *)
Definition convert (d : dtype) (f : field) : cell :=
  match f with
  | FNa => None
  | FNum s x => Some (match d with DNum => VNum x | _ => VStr s end)
  | FBool s b => Some (match d with DBool => VBool b | _ => VStr s end)
  | FText s => Some (VStr s)
  end.

(** [Series.notna()] on one cell. *)
Definition notna (x : cell) : bool :=
  match x with Some _ => true | None => false end.

(** [Series.dropna()] *)
Definition dropna (s : list cell) : list value := omap id s.

(** [Series.ffill()]: [prev] is the last valid value seen so far. *)
Fixpoint ffill_from (prev : cell) (s : list cell) : list cell :=
  match s with
  | [] => []
  | x :: s' =>
      let v := match x with Some _ => x | None => prev end in
      v :: ffill_from v s'
  end.

Definition ffill (s : list cell) : list cell := ffill_from None s.

(** [df[c] = vals], for a Series on the index of [df]. *)
Definition assign (c : column) (vals : list cell) (df : frame) : frame :=
  zip_with (set c) vals df.

(** [df[c] == selected], cell by cell: NaN equals nothing, not even NaN. *)
Definition matches (selected : option cell) (x : cell) : bool :=
  match selected, x with
  | Some (Some v), Some w => bool_decide (w = v)
  | _, _ => false
  end.

Section Dedup.
Context {A : Type} `{EqDecision A}.

(** [Series.unique()] / [DataFrame.drop_duplicates()]: one pass with a
    table of the values already met, keeping each first occurrence in
    order of appearance.  NaN counts as a value equal to itself. *)
Fixpoint unique_from (seen : list A) (l : list A) : list A :=
  match l with
  | [] => []
  | x :: l' =>
      if decide (x ∈ seen) then unique_from seen l'
      else x :: unique_from (x :: seen) l'
  end.

Definition unique (l : list A) : list A := unique_from [] l.

Definition drop_duplicates (l : list A) : list A := unique l.

(** Position of the first occurrence of [x] in [l] ([length l] when
    absent). *)
Fixpoint index_of (x : A) (l : list A) : nat :=
  match l with
  | [] => 0
  | y :: l' => if decide (y = x) then 0 else S (index_of x l')
  end.
End Dedup.

(** [Series.nunique()]: NaN is not counted. *)
Definition nunique (s : list cell) : nat := length (unique (dropna s)).

(** The ascending order in which [groupby] puts the group labels. *)
Definition sort_keys (l : list value) : list value := merge_sort value_le l.

(** Descending order of the counts of a labelled Series. *)
Definition count_ge (p q : value * nat) : Prop := q.2 ≤ p.2.

#[global] Instance count_ge_dec : RelDecision count_ge.
Proof. intros p q. unfold count_ge. apply _. Defined.

(** [Series.sort_values(ascending=False)] on a Series of counts, as a
    stable sort: entries with equal counts keep the order they come in. *)
Fixpoint insert_desc (p : value * nat) (s : list (value * nat)) : list (value * nat) :=
  match s with
  | [] => [p]
  | q :: s' => if decide (p.2 < q.2) then q :: insert_desc p s' else p :: s
  end.

Definition sort_values_desc (s : list (value * nat)) : list (value * nat) :=
  foldr insert_desc [] s.

(** [df.groupby(c)]: the group labels are the distinct non-missing values
    of the key column, in ascending order; each group holds the rows with
    that key, in their original order. *)
Definition group_keys (c : column) (df : frame) : list value :=
  sort_keys (unique (dropna (col c df))).

Definition group (c : column) (k : value) (df : frame) : frame :=
  filter (λ r, get c r = Some k) df.

Definition groupby (c : column) (df : frame) : list (value * frame) :=
  (λ k, (k, group c k df)) <$> group_keys c df.

(** [Series.value_counts()]: occurrences of each non-missing value, most
    frequent first. *)
Definition value_counts (s : list cell) : list (value * nat) :=
  sort_values_desc
    ((λ v, (v, length (filter (λ x, x = Some v) s))) <$> unique (dropna s)).

(** *** [read_csv] *)

(** [UserReport.csv]: absent, without any line, or a header line and the
    data lines, blank lines skipped. *)
Inductive file :=
  | Missing
  | NoLines
  | Lines (header : list string) (data : list (list field)).

(** The number of fields the tokenizer expects of a data line: that of the
    first data line, or of the header when that is longer. *)
Definition expected_fields (header : list string) (data : list (list field)) : nat :=
  match data with
  | [] => length header
  | first :: _ => length header `max` length first
  end.

(** The field of a line at a data column, the [leading] fields before the
    data columns being the index; a line that ends early is padded with
    missing values. *)
Definition field_at (leading : nat) (line : list field) (j : nat) : field :=
  default FNa (line !! (leading + j)).

(** The table [read_csv] returns: as many columns as the header has
    names, and a row per data line. *)
Record table := Table {
  width : nat;
  records : list (nat → cell)
}.

(** A data line with more fields than expected stops the tokenizer.  When
    the lines hold more fields than the header has names, the first fields
    of each line become the index of the table and the names label the
    fields after them. *)
Definition read_csv (f : file) : result table :=
  match f with
  | Missing => Raise FileNotFoundError
  | NoLines => Raise EmptyDataError
  | Lines header data =>
      let expected := expected_fields header data in
      if decide (Forall (λ line, length line ≤ expected) data) then
        let leading := expected - length header in
        let dtype_of j := infer_dtype ((λ line, field_at leading line j) <$> data) in
        Ok (Table (length header)
              ((λ line j, convert (dtype_of j) (field_at leading line j)) <$> data))
      else Raise ParserError
  end.

End Pandas.

Import Pandas.

(** ** Loading: lines 6-14 *)

Definition row_of_record (f : nat → cell) : row :=
  Row (f 0) (f 1) (f 2) (f 3) (f 4).

(** The table as read, before cleaning, under the five canonical labels. *)
Definition source_table (t : table) : frame := row_of_record <$> records t.

(** [df.columns = [...]] (line 9): pandas raises when the number of labels
    differs from the number of columns. *)
Definition set_columns (names : list string) (t : table) : result frame :=
  if decide (width t = length names) then Ok (source_table t)
  else Raise (ValueError "Length mismatch").

Definition ffill_cols : list column := [AgentCode; AgentName; UserID; UserName].

(** [df[cs] = df[cs].ffill()] (line 10): the right-hand side is computed
    from [df] as it is before the assignment. *)
Definition ffill_columns (cs : list column) (df : frame) : frame :=
  foldl (λ d c, assign c (ffill (col c df)) d) df cs.

(** [df[df['Role'].notna()].reset_index(drop=True)] (line 11). *)
Definition drop_missing_role (df : frame) : frame :=
  filter (λ r, notna (get Role r) = true) df.

Definition clean (df : frame) : frame :=
  drop_missing_role (ffill_columns ffill_cols df).

(** Lines 8-9: the table as read, under the canonical labels. *)
Definition read_source (f : file) : result frame :=
  t ← read_csv f ;
  set_columns column_names t.

Definition load_data (f : file) : result frame :=
  df ← read_source f ;
  Ok (clean df).



(** ** The views *)

(** [st.selectbox(label, options)]: the option at the index the widget
    holds (0 until the user picks another one, and always that of an
    option), or [None] when there is no option. *)
Definition selectbox {A : Type} (options : list A) (choice : nat) : option A :=
  options !! choice.

(** Page 1 (lines 17-34). *)
Record statistics := Statistics {
  num_users : nat;
  num_agents : nat;
  num_roles : nat;
  users_per_agent : list (value * nat);
  role_counts : list (value * nat)
}.

Definition nunique_by (key val : column) (df : frame) : list (value * nat) :=
  (λ kg : value * frame, (kg.1, nunique (col val kg.2))) <$> groupby key df.

Definition page_statistics (df : frame) : statistics :=
  Statistics
    (nunique (col UserID df))
    (nunique (col AgentName df))
    (nunique (col Role df))
    (sort_values_desc (nunique_by AgentName UserID df))
    (value_counts (col Role df)).

(** Page 2, lines 43-53: the [users] frame and the [Total users] figure
    under the selected role. *)
Definition filter_by_role_view (df : frame) (selected_role : option cell)
  : option (list (cell * cell * cell) * nat) :=
  if truthy selected_role then
    let filtered_df := filter (λ r, matches selected_role (get Role r) = true) df in
    let users :=
      drop_duplicates ((λ r, (get UserID r, get UserName r, get AgentName r)) <$> filtered_df) in
    Some (users, length users)
  else None.


(** Page 3, lines 62-68: the [Total roles] figure and the bullet list under
    the selected user. *)
Definition filter_by_user_view (df : frame) (selected_user : option cell)
  : option (nat * list cell) :=
  if truthy selected_user then
    let filtered_df := filter (λ r, matches selected_user (get UserName r) = true) df in
    let roles := unique (col Role filtered_df) in
    Some (length roles, roles)
  else None.

(** Page 3 (lines 56-68). *)
Definition page_filter_by_user (df : frame) (choice : nat)
  : result (option (nat * list cell)) :=
  user_names ← py_sorted (unique (col UserName df)) ;
  Ok (filter_by_user_view df (selectbox user_names choice)).

Record agent_row := AgentRow {
  ar_user_name : value;
  ar_roles : string;
  ar_number_of_roles : nat
}.

(** Page 4, lines 77-99: the [grouped] frame under the selected agent. *)
Definition agent_users_roles_view (df : frame) (selected_agent : option cell)
  : option (result (list agent_row)) :=
  if truthy selected_agent then
    let df_filtered := filter (λ r, matches selected_agent (get AgentName r) = true) df in
    let grouped :=
      (λ kg : value * frame, (kg.1, unique (col Role kg.2))) <$> groupby UserName df_filtered in
    Some (mapM
            (λ ur : value * list cell,
               joined ← join_sorted ur.2 ;
               Ok (AgentRow ur.1 joined (length ur.2)))
            grouped)
  else None.


(** Page 5 (lines 102-115). *)
Definition page_agent_user_counts (df : frame) : list (value * nat) :=
  nunique_by AgentName UserID df.

(** ** The navigation: lines 118-136 *)



(** ** Example data *)

Definition text (s : string) : cell := Some (VStr s).

Definition number (n : Z) : cell := Some (VNum (Qc_of_Z n)).

(** The three assignments of the specification's examples, written the way
    the report lays them out: the second line leaves the repeated
    identifying fields empty. *)
Definition example_file : file :=
  Lines column_names
    [[FText "A1"; FText "Agt1"; FText "U1"; FText "Alice"; FText "Admin"];
     [FNa; FNa; FNa; FNa; FText "Viewer"];
     [FText "A2"; FText "Agt2"; FText "U2"; FText "Bob"; FText "Admin"]].

Definition example_df : frame :=
  [Row (text "A1") (text "Agt1") (text "U1") (text "Alice") (text "Admin");
   Row (text "A1") (text "Agt1") (text "U1") (text "Alice") (text "Viewer");
   Row (text "A2") (text "Agt2") (text "U2") (text "Bob") (text "Admin")].


(** A report in which the user name of the first line is empty. *)
Definition nameless_file : file :=
  Lines column_names
    [[FText "A1"; FText "Agt1"; FText "U1"; FNa; FText "Admin"];
     [FText "A1"; FText "Agt1"; FText "U2"; FText "Bob"; FText "Viewer"]].



(** A report whose user names are the numbers 0 and 7. *)
Definition numbered_users_file : file :=
  Lines column_names
    [[FText "A1"; FText "Agt1"; FText "U1"; FNum "0" (Qc_of_Z 0); FText "Admin"];
     [FText "A2"; FText "Agt2"; FText "U2"; FNum "7" (Qc_of_Z 7); FText "Viewer"]].

(** A report with five names in the header and six fields on each line. *)
Definition six_fields_file : file :=
  Lines column_names
    [[FText "x"; FText "A1"; FText "Agt1"; FText "U1"; FText "Alice"; FText "Admin"];
     [FText "y"; FText "A2"; FText "Agt2"; FText "U2"; FText "Bob"; FText "Admin"]].

(** ** Notions the statements below are phrased with *)

(** [n] is the number of distinct values that satisfy [P]. *)
Definition distinct_count {A : Type} (P : A → Prop) (n : nat) : Prop :=
  ∃ l : list A, NoDup l ∧ (∀ x, x ∈ l ↔ P x) ∧ length l = n.

(** [v] is the nearest non-missing value of the Series [s] at or before
    position [i]; it is missing when there is none. *)
Definition nearest_valid (s : list cell) (i : nat) (v : cell) : Prop :=
  match v with
  | Some x =>
      ∃ j, j ≤ i ∧ s !! j = Some (Some x) ∧ ∀ k, j < k ≤ i → s !! k = Some None
  | None => ∀ k, k ≤ i → s !! k = Some None
  end.

(** Position of the first element of [l] that satisfies [P] ([length l]
    when there is none). *)
Fixpoint first_index {A : Type} (P : A → Prop) `{!∀ x, Decision (P x)}
    (l : list A) : nat :=
  match l with
  | [] => 0
  | x :: l' => if decide (P x) then 0 else S (first_index P l')
  end.


(** What the Filter-by-Role view is to show for the role [r]: the (User
    ID, User Name, Agent Name) triples of the rows with that role, each
    once, and their number. *)
Definition role_users (df : frame) (r : value)
    (users : list (cell * cell * cell)) (n : nat) : Prop :=
  NoDup users ∧
  (∀ u, u ∈ users ↔
     ∃ row, row ∈ df ∧ get Role row = Some r ∧
       u = (get UserID row, get UserName row, get AgentName row)) ∧
  n = length users.

(** What the Filter-by-User view is to show for the user name [u]: the
    distinct roles of the rows with that name, none missing, and their
    number. *)
Definition user_roles (df : frame) (u : value) (n : nat) (roles : list cell) : Prop :=
  NoDup roles ∧
  (∀ x, x ∈ roles ↔
     ∃ row, row ∈ df ∧ get UserName row = Some u ∧ get Role row = x) ∧
  (∀ x, x ∈ roles → is_Some x) ∧
  distinct_count
    (λ x, ∃ row, row ∈ df ∧ get UserName row = Some u ∧ get Role row = x) n.


(** A Series in which no missing value follows a non-missing one. *)
Fixpoint filled (s : list cell) : Prop :=
  match s with
  | [] => True
  | None :: s' => filled s'
  | Some _ :: s' => Forall is_Some s'
  end.
(** * Properties of the primitives *)

(** ** First-occurrence deduplication *)

Section DedupFacts.
Context {A : Type} `{EqDecision A}.
Implicit Types (l seen : list A) (x y : A).

Lemma elem_of_unique_from seen l x :
  x ∈ unique_from seen l ↔ x ∈ l ∧ x ∉ seen.
Proof.
  revert seen. induction l as [|y l IH]; intros seen; simpl.
  - rewrite !elem_of_nil. tauto.
  - destruct (decide (y ∈ seen)) as [Hy|Hy].
    + rewrite IH, elem_of_cons. split; [tauto|].
      intros [[->|Hx] Hn]; [contradiction|tauto].
    + rewrite !elem_of_cons, IH, not_elem_of_cons. split.
      * intros [->|[Hx [Hne Hn]]]; tauto.
      * intros [[->|Hx] Hn]; [tauto|].
        destruct (decide (x = y)) as [->|Hne]; tauto.
Qed.

Lemma NoDup_unique_from seen l : NoDup (unique_from seen l).
Proof.
  revert seen. induction l as [|y l IH]; intros seen; simpl.
  - constructor.
  - destruct (decide (y ∈ seen)); [apply IH|].
    constructor; [|apply IH].
    rewrite elem_of_unique_from, not_elem_of_cons. tauto.
Qed.

Lemma elem_of_unique l x : x ∈ unique l ↔ x ∈ l.
Proof.
  unfold unique. rewrite elem_of_unique_from, elem_of_nil. tauto.
Qed.

Lemma NoDup_unique l : NoDup (unique l).
Proof. apply NoDup_unique_from. Qed.

(** The table of values already met acts as a filter on the result. *)
Lemma unique_from_filter seen l :
  unique_from seen l = filter (λ y, y ∉ seen) (unique l).
Proof.
  unfold unique. revert seen.
  induction l as [|x l IH]; intros seen; simpl; [done|].
  destruct (decide (x ∈ seen)) as [Hx|Hx].
  - rewrite filter_cons_False by tauto.
    rewrite (IH seen), (IH [x]), list_filter_filter.
    apply list_filter_iff. intros y. rewrite list_elem_of_singleton.
    split; [|tauto]. intros Hy. split; [done|]. intros ->. done.
  - rewrite filter_cons_True by done. f_equal.
    rewrite (IH (x :: seen)), (IH [x]), list_filter_filter.
    apply list_filter_iff. intros y.
    rewrite not_elem_of_cons, list_elem_of_singleton. tauto.
Qed.

Lemma unique_cons x l :
  unique (x :: l) = x :: filter (λ y, y ≠ x) (unique l).
Proof.
  unfold unique at 1. simpl.
  f_equal.
  rewrite unique_from_filter. apply list_filter_iff.
  intros y. rewrite list_elem_of_singleton. tauto.
Qed.

Lemma index_of_filter (P : A → Prop) `{!∀ x, Decision (P x)} l x y :
  P x → P y →
  index_of x (filter P l) < index_of y (filter P l) ↔ index_of x l < index_of y l.
Proof.
  intros Hx Hy. induction l as [|z l IH]; simpl; [done|].
  destruct (decide (P z)) as [Hz|Hz].
  - rewrite filter_cons_True by done. simpl.
    destruct (decide (z = x)), (decide (z = y)); lia.
  - rewrite filter_cons_False by done.
    rewrite !decide_False by (intros ->; done). lia.
Qed.

(** [unique] lists the values by first occurrence. *)
Lemma index_of_unique l x y :
  index_of x (unique l) < index_of y (unique l) ↔ index_of x l < index_of y l.
Proof.
  induction l as [|z l IH]; [done|].
  rewrite unique_cons. simpl.
  destruct (decide (z = x)) as [Hzx|Hzx], (decide (z = y)) as [Hzy|Hzy];
    try lia.
  rewrite <- !Nat.succ_lt_mono, <- IH.
  apply index_of_filter; congruence.
Qed.

Lemma index_of_lt_length l x : x ∈ l ↔ index_of x l < length l.
Proof.
  induction l as [|z l IH]; simpl.
  - rewrite elem_of_nil. lia.
  - rewrite elem_of_cons. destruct (decide (z = x)) as [->|Hne].
    + split; [lia|auto].
    + rewrite <- Nat.succ_lt_mono, <- IH. split; [|tauto].
      intros [->|?]; [done|tauto].
Qed.

Lemma lookup_index_of l x : x ∈ l → l !! index_of x l = Some x.
Proof.
  induction l as [|z l IH]; simpl.
  - rewrite elem_of_nil. done.
  - rewrite elem_of_cons. destruct (decide (z = x)) as [->|Hne]; [done|].
    intros [->|Hx]; [done|]. simpl. auto.
Qed.
End DedupFacts.

(** ** The orders used for sorting *)

Lemma string_compare_trans s1 s2 s3 :
  String.compare s1 s2 ≠ Gt → String.compare s2 s3 ≠ Gt → String.compare s1 s3 ≠ Gt.
Proof.
  revert s2 s3. induction s1 as [|a1 s1 IH]; intros [|a2 s2] [|a3 s3]; simpl;
    try done.
  unfold Ascii.compare.
  destruct (N.compare_spec (N_of_ascii a1) (N_of_ascii a2)) as [E12|L12|G12];
    destruct (N.compare_spec (N_of_ascii a2) (N_of_ascii a3)) as [E23|L23|G23];
    destruct (N.compare_spec (N_of_ascii a1) (N_of_ascii a3)) as [E13|L13|G13];
    try done; try lia.
  apply IH.
Qed.

#[global] Instance string_le_trans : Transitive string_le.
Proof.
  intros s1 s2 s3. unfold string_le, String.leb. intros H12 H23.
  pose proof (string_compare_trans s1 s2 s3) as H.
  destruct (String.compare s1 s2), (String.compare s2 s3),
    (String.compare s1 s3); try done; exfalso; apply H; done.
Qed.

#[global] Instance string_le_total : Total string_le.
Proof. intros s1 s2. apply String.leb_total. Qed.

#[global] Instance string_le_antisym : AntiSymm (=) string_le.
Proof. intros s1 s2. apply String.leb_antisym. Qed.

#[global] Instance value_le_trans : Transitive value_le.
Proof.
  intros [s|x|b] [t|y|c] [u|z|d]; simpl; try done;
    try apply (transitivity (R := string_le));
    apply Qcle_trans.
Qed.

#[global] Instance value_le_total : Total value_le.
Proof.
  intros [s|x|b] [t|y|c]; simpl; try tauto;
    try apply (total string_le); apply (total Qcle).
Qed.

#[global] Instance cell_le_trans : Transitive cell_le.
Proof.
  intros [v|] [w|] [u|]; simpl; try done. apply (transitivity (R := value_le)).
Qed.

#[global] Instance cell_le_total : Total cell_le.
Proof. intros [v|] [w|]; simpl; try tauto. apply (total value_le). Qed.

#[global] Instance count_ge_trans : Transitive count_ge.
Proof. intros p q r. unfold count_ge. lia. Qed.

#[global] Instance count_ge_total : Total count_ge.
Proof. intros p q. unfold count_ge. lia. Qed.



Lemma sort_keys_Permutation l : sort_keys l ≡ₚ l.
Proof. apply merge_sort_Permutation. Qed.

Lemma StronglySorted_sort_keys l : StronglySorted value_le (sort_keys l).
Proof. apply StronglySorted_merge_sort; apply _. Qed.

Lemma insert_desc_Permutation p s : insert_desc p s ≡ₚ p :: s.
Proof.
  induction s as [|q s IH]; simpl; [done|].
  destruct (decide (p.2 < q.2)); [|done].
  by rewrite IH, Permutation_swap.
Qed.

Lemma sort_values_desc_Permutation s : sort_values_desc s ≡ₚ s.
Proof.
  induction s as [|p s IH]; simpl; [done|].
  by rewrite insert_desc_Permutation, IH.
Qed.

Lemma Sorted_insert_desc p s :
  Sorted count_ge s → Sorted count_ge (insert_desc p s).
Proof.
  induction 1 as [|q s Hs IH Hq]; simpl; [by repeat constructor|].
  destruct (decide (p.2 < q.2)) as [Hlt|Hge].
  - constructor; [done|].
    destruct Hq as [|q' s' Hqq']; simpl.
    + constructor. unfold count_ge. lia.
    + destruct (decide (p.2 < q'.2)); constructor; [done|].
      unfold count_ge. lia.
  - constructor; [by constructor|]. constructor. unfold count_ge. lia.
Qed.

Lemma StronglySorted_sort_values_desc s :
  StronglySorted count_ge (sort_values_desc s).
Proof.
  apply Sorted_StronglySorted; [apply _|].
  induction s as [|p s IH]; simpl; [constructor|]. by apply Sorted_insert_desc.
Qed.

(** ** Forward fill *)

Lemma length_ffill_from prev s : length (ffill_from prev s) = length s.
Proof.
  revert prev. induction s as [|x s IH]; intros prev; simpl; [done|].
  by rewrite IH.
Qed.

Lemma length_ffill s : length (ffill s) = length s.
Proof. apply length_ffill_from. Qed.

Lemma ffill_from_lookup prev s i v :
  ffill_from prev s !! i = Some v →
  match v with
  | Some x => nearest_valid s i (Some x) ∨ (prev = Some x ∧ nearest_valid s i None)
  | None => prev = None ∧ nearest_valid s i None
  end.
Proof.
  revert prev i. induction s as [|x s IH]; intros prev i; simpl; [done|].
  destruct i as [|i]; simpl.
  - intros [= <-]. destruct x as [a|].
    + left. exists 0. split; [lia|]. split; [done|]. intros k Hk. lia.
    + assert (nearest_valid (None :: s) 0 None) as H0.
      { intros k Hk. by replace k with 0 by lia. }
      destruct prev; auto.
  - intros Hv. apply IH in Hv. destruct v as [y|].
    + destruct Hv as [(j & Hj & Hjv & Hgap)|[Hprev Hnone]].
      * left. exists (S j). split; [lia|]. split; [done|].
        intros [|k] Hk; [lia|]. simpl. apply Hgap. lia.
      * destruct x as [a|].
        -- left. exists 0. split; [lia|]. split; [by rewrite Hprev|].
           intros [|k] Hk; [lia|]. simpl. apply Hnone. lia.
        -- right. split; [done|].
           intros [|k] Hk; [done|]. simpl. apply Hnone. lia.
    + destruct Hv as [Hprev Hnone]. destruct x as [a|]; [done|].
      split; [done|]. intros [|k] Hk; [done|]. simpl. apply Hnone. lia.
Qed.

Lemma ffill_lookup s i v : ffill s !! i = Some v → nearest_valid s i v.
Proof.
  intros Hv. apply ffill_from_lookup in Hv.
  destruct v as [x|]; [|tauto]. destruct Hv as [?|[? _]]; done.
Qed.

(** ** Column assignment *)

Lemma get_set_eq c v r : get c (set c v r) = v.
Proof. by destruct c. Qed.

Lemma get_set_ne c c' v r : c ≠ c' → get c' (set c v r) = get c' r.
Proof. by destruct c, c'. Qed.

Lemma length_col c df : length (col c df) = length df.
Proof. apply length_fmap. Qed.

Lemma length_assign c vals df :
  length vals = length df → length (assign c vals df) = length df.
Proof. intros H. unfold assign. by rewrite length_zip_with_r_eq. Qed.

Lemma col_assign_eq c vals df :
  length vals = length df → col c (assign c vals df) = vals.
Proof.
  unfold col, assign. revert df.
  induction vals as [|v vals IH]; intros [|r df]; simpl; try done.
  intros [= Hlen]. rewrite get_set_eq. f_equal. by apply IH.
Qed.

Lemma col_assign_ne c c' vals df :
  c ≠ c' → length vals = length df → col c' (assign c vals df) = col c' df.
Proof.
  intros Hne. unfold col, assign. revert df.
  induction vals as [|v vals IH]; intros [|r df]; simpl; try done.
  intros [= Hlen]. rewrite get_set_ne by done. f_equal. by apply IH.
Qed.

(** * The loader *)

Section Loader.
Implicit Types (df : frame) (c : column) (r : row) (t : table).

Lemma ffill_fold_length df0 cs d :
  length d = length df0 →
  length (foldl (λ d c, assign c (ffill (col c df0)) d) d cs) = length df0.
Proof.
  revert d. induction cs as [|c1 cs IH]; intros d Hd; simpl; [done|].
  apply IH. rewrite length_assign; [done|].
  by rewrite length_ffill, length_col.
Qed.

Lemma ffill_fold_col c df0 cs d :
  length d = length df0 →
  col c (foldl (λ d c, assign c (ffill (col c df0)) d) d cs) =
    if decide (c ∈ cs) then ffill (col c df0) else col c d.
Proof.
  revert d. induction cs as [|c1 cs IH]; intros d Hd; cbn [foldl].
  - by rewrite decide_False by apply not_elem_of_nil.
  - assert (length (ffill (col c1 df0)) = length d) as Hlen
      by (by rewrite length_ffill, length_col).
    rewrite IH by (by rewrite length_assign).
    destruct (decide (c ∈ cs)) as [Hin|Hin].
    + by rewrite decide_True by (by right).
    + destruct (decide (c = c1)) as [->|Hne].
      * rewrite decide_True by (by left). by apply col_assign_eq.
      * rewrite decide_False by (rewrite not_elem_of_cons; done).
        by apply col_assign_ne.
Qed.

Lemma length_ffill_columns cs df : length (ffill_columns cs df) = length df.
Proof. by apply ffill_fold_length. Qed.

(** After line 10 a listed column is the forward fill of the source
    column; every other column is unchanged. *)
Lemma col_ffill_columns c cs df :
  col c (ffill_columns cs df) =
    if decide (c ∈ cs) then ffill (col c df) else col c df.
Proof. by apply ffill_fold_col. Qed.

Lemma col_Role_drop_missing_role df :
  col Role (drop_missing_role df) = filter (λ x, is_Some x) (col Role df).
Proof.
  unfold col, drop_missing_role. induction df as [|r df IH]; [done|].
  rewrite fmap_cons, !filter_cons.
  destruct (decide (notna (get Role r) = true)) as [Hn|Hn],
    (decide (is_Some (get Role r))) as [Hs|Hs].
  - by rewrite fmap_cons, IH.
  - destruct (get Role r); [by destruct Hs|done].
  - destruct (get Role r); [done|by destruct Hs].
  - done.
Qed.

Lemma length_drop_missing_role df :
  length (drop_missing_role df) = length (filter (λ r, is_Some (get Role r)) df).
Proof.
  unfold drop_missing_role. f_equal. apply list_filter_iff.
  intros r. destruct (get Role r); simpl; split; try done.
Qed.

(** Where a row of the cleaned table comes from. *)
Lemma clean_row df r :
  r ∈ clean df →
  ∃ i r0, df !! i = Some r0 ∧ get Role r0 = get Role r ∧ is_Some (get Role r) ∧
    ∀ c, c ∈ ffill_cols → nearest_valid (col c df) i (get c r).
Proof.
  unfold clean, drop_missing_role. rewrite list_elem_of_filter.
  intros [Hrole Hin]. apply list_elem_of_lookup in Hin as [i Hi].
  assert (∀ c, col c (ffill_columns ffill_cols df) !! i = Some (get c r)) as Hcol.
  { intros c. unfold col. by rewrite list_lookup_fmap, Hi. }
  pose proof (Hcol Role) as HR. rewrite col_ffill_columns in HR.
  rewrite decide_False in HR by (by vm_compute; inversion 1; subst;
    repeat match goal with H : _ ∈ _ |- _ => inversion H; clear H; subst end).
  unfold col in HR. apply list_lookup_fmap_Some in HR as (r0 & Hr0 & Heq).
  exists i, r0. split; [done|]. split; [done|]. split.
  { destruct (get Role r); [by eexists|done]. }
  intros c Hc. specialize (Hcol c). rewrite col_ffill_columns in Hcol.
  rewrite decide_True in Hcol by done. by apply ffill_lookup.
Qed.
End Loader.


Section LoadedTables.
Implicit Types (df src : frame) (c : column) (r : row) (t : table) (f : file).


Lemma load_data_Ok f df :
  load_data f = Ok df ↔ ∃ src, read_source f = Ok src ∧ df = clean src.
Proof.
  unfold load_data, mbind, result_bind.
  destruct (read_source f) as [src|e]; split.
  - intros [= <-]. by exists src.
  - by intros (src' & [= <-] & ->).
  - done.
  - by intros (src' & ? & _).
Qed.



Lemma loaded_role_present f df r :
  load_data f = Ok df → r ∈ df → is_Some (get Role r).
Proof.
  rewrite load_data_Ok. intros (src & _ & ->) Hr.
  by apply clean_row in Hr as (i & r0 & _ & _ & Hs & _).
Qed.




End LoadedTables.

(** * The claims about loading *)

Example load_example : load_data example_file = Ok example_df.
Proof. vm_compute. reflexivity. Qed.




(** C9: a cleaned table has no row with a missing Role.  Its Role column is
    the source's Role column with the missing entries removed, each
    remaining value in place and unchanged: the rows without a role are
    dropped and no role is ever filled in. *)
Theorem C9_no_missing_role (f : file) (src df : frame) :
  read_source f = Ok src → load_data f = Ok df →
  (∀ r, r ∈ df → is_Some (get Role r)) ∧
  col Role df = filter (λ x, is_Some x) (col Role src) ∧
  length df = length (filter (λ r, is_Some (get Role r)) src).
Proof.
  intros Hsrc Hload. split; [intros r; by apply (loaded_role_present f)|].
  apply load_data_Ok in Hload as (src' & Hsrc' & ->).
  assert (src' = src) as -> by congruence.
  unfold clean. split.
  - rewrite col_Role_drop_missing_role, col_ffill_columns.
    by rewrite decide_False
      by (unfold ffill_cols; rewrite !not_elem_of_cons; split_and!; try done;
          apply not_elem_of_nil).
  - rewrite <- (length_col Role), col_Role_drop_missing_role, col_ffill_columns.
    rewrite decide_False
      by (unfold ffill_cols; rewrite !not_elem_of_cons; split_and!; try done;
          apply not_elem_of_nil).
    rewrite <- (length_col Role (filter _ src)).
    f_equal. unfold col. generalize src. intros l.
    induction l as [|r l IH]; [done|].
    rewrite fmap_cons, !filter_cons. destruct (decide (is_Some (get Role r)));
      [by rewrite fmap_cons, IH|done].
Qed.

Lemma C9_no_missing_role_witness :
  (∀ r, r ∈ example_df → is_Some (get Role r)) ∧
  col Role example_df =
    filter (λ x, is_Some x)
      (col Role [Row (text "A1") (text "Agt1") (text "U1") (text "Alice") (text "Admin");
                 Row None None None None (text "Viewer");
                 Row (text "A2") (text "Agt2") (text "U2") (text "Bob") (text "Admin")]) ∧
  length example_df =
    length (filter (λ r, is_Some (get Role r))
      [Row (text "A1") (text "Agt1") (text "U1") (text "Alice") (text "Admin");
       Row None None None None (text "Viewer");
       Row (text "A2") (text "Agt2") (text "U2") (text "Bob") (text "Admin")]).
Proof.
  apply (C9_no_missing_role example_file _ example_df).
  - vm_compute. reflexivity.
  - vm_compute. reflexivity.
Defined.




(** * Facts about grouping and counting *)

Section Counting.
Implicit Types (df : frame) (c : column) (r : row) (s : list cell).

Lemma elem_of_dropna s x : x ∈ dropna s ↔ Some x ∈ s.
Proof.
  unfold dropna. rewrite list_elem_of_omap. split.
  - intros (y & Hy & Heq). simpl in Heq. by subst.
  - intros Hx. by exists (Some x).
Qed.

Lemma NoDup_dropna s : NoDup s → NoDup (dropna s).
Proof.
  unfold dropna. induction 1 as [|y s Hy Hs IH]; [constructor|].
  destruct y as [x|]; simpl; [|done].
  constructor; [|done]. by rewrite (elem_of_dropna s x).
Qed.

Lemma length_dropna s : Forall is_Some s → length (dropna s) = length s.
Proof.
  unfold dropna. induction 1 as [|y s [x ->] Hs IH]; [done|].
  simpl. by f_equal.
Qed.

Lemma distinct_count_unique {A} (P : A → Prop) n m :
  distinct_count P n → distinct_count P m → n = m.
Proof.
  intros (l & Hl & HPl & <-) (k & Hk & HPk & <-).
  apply Permutation_length, NoDup_Permutation; [done..|].
  intros x. by rewrite HPl, HPk.
Qed.

(** [nunique] counts the distinct non-missing values of a Series. *)
Lemma nunique_distinct_count s :
  distinct_count (λ x, Some x ∈ s) (nunique s).
Proof.
  exists (unique (dropna s)). split; [apply NoDup_unique|]. split; [|done].
  intros x. by rewrite elem_of_unique, elem_of_dropna.
Qed.

Lemma elem_of_group c k df r : r ∈ group c k df ↔ r ∈ df ∧ get c r = Some k.
Proof. unfold group. rewrite list_elem_of_filter. tauto. Qed.

Lemma elem_of_group_keys c df k : k ∈ group_keys c df ↔ Some k ∈ col c df.
Proof.
  unfold group_keys. by rewrite sort_keys_Permutation, elem_of_unique, elem_of_dropna.
Qed.

Lemma NoDup_group_keys c df : NoDup (group_keys c df).
Proof. unfold group_keys. rewrite sort_keys_Permutation. apply NoDup_unique. Qed.

Lemma elem_of_col c df x : x ∈ col c df ↔ ∃ r, r ∈ df ∧ get c r = x.
Proof.
  unfold col. rewrite list_elem_of_fmap. split; intros (r & ? & ?); by exists r.
Qed.

Lemma fmap_retract {A B} (f : B → A) (g : A → B) (l : list A) :
  (∀ x, f (g x) = x) → f <$> (g <$> l) = l.
Proof.
  intros Hfg. induction l as [|x l IH]; [done|].
  by rewrite !fmap_cons, Hfg, IH.
Qed.

Lemma fst_fmap_pair {A B} (g : A → B) (l : list A) :
  ((λ v, (v, g v)) <$> l).*1 = l.
Proof. by apply fmap_retract. Qed.

Lemma fst_nunique_by key val df : (nunique_by key val df).*1 = group_keys key df.
Proof.
  unfold nunique_by, groupby. rewrite <- !list_fmap_compose.
  rewrite <- (list_fmap_id (group_keys key df)) at 2.
  by apply list_fmap_ext.
Qed.

Lemma elem_of_nunique_by key val df k n :
  (k, n) ∈ nunique_by key val df ↔
  Some k ∈ col key df ∧ n = nunique (col val (group key k df)).
Proof.
  unfold nunique_by, groupby. rewrite <- list_fmap_compose, list_elem_of_fmap.
  setoid_rewrite elem_of_group_keys. simpl. split.
  - by intros (k' & [= -> ->] & Hk).
  - intros [Hk ->]. by exists k.
Qed.

Lemma count_in_column c df (v : cell) :
  length (filter (λ x, x = v) (col c df)) = length (filter (λ r, get c r = v) df).
Proof.
  unfold col. induction df as [|r df IH]; [done|].
  rewrite fmap_cons, !filter_cons. destruct (decide (get c r = v)); simpl; lia.
Qed.


Lemma index_of_first_index {A B} `{EqDecision B} (Q : A → Prop)
    `{!∀ a, Decision (Q a)} (f : A → B) (l : list A) (x y : B) :
  index_of x (f <$> filter Q l) < index_of y (f <$> filter Q l) ↔
  first_index (λ a, Q a ∧ f a = x) l < first_index (λ a, Q a ∧ f a = y) l.
Proof.
  induction l as [|a l IH]; [done|].
  rewrite filter_cons. cbn [first_index].
  destruct (decide (Q a ∧ f a = x)) as [Hx|Hx],
    (decide (Q a ∧ f a = y)) as [Hy|Hy], (decide (Q a)) as [Ha|Ha];
    try tauto; rewrite ?fmap_cons; cbn [index_of];
    destruct (decide (f a = x)), (decide (f a = y)); try tauto; lia.
Qed.
End Counting.


(** * Facts about selecting *)

Section Selecting.
Implicit Types (df : frame) (c : column) (l : list cell) (v : value).

Lemma matches_Some v (x : cell) : matches (Some (Some v)) x = true ↔ x = Some v.
Proof.
  destruct x as [w|]; simpl; [|done].
  rewrite bool_decide_eq_true. split; congruence.
Qed.

(** Selecting the rows of a value is selecting the rows that hold it. *)
Lemma filter_matches c v df :
  filter (λ r, matches (Some (Some v)) (get c r) = true) df =
  filter (λ r, get c r = Some v) df.
Proof. apply list_filter_iff. intros r. apply matches_Some. Qed.

(** NaN selects no row. *)
Lemma filter_matches_nan c df :
  filter (λ r, matches (Some None) (get c r) = true) df = [].
Proof. induction df as [|r df IH]; [done|]. by rewrite filter_cons_False. Qed.




(** [sorted] permutes. *)
Lemma py_sorted_Permutation l k : py_sorted l = Ok k → k ≡ₚ l.
Proof.
  unfold py_sorted. destruct (forallb is_str l).
  - intros [= <-]. apply merge_sort_Permutation.
  - destruct (existsb is_str l); [done|].
    intros [= <-]. apply merge_sort_Permutation.
Qed.








End Selecting.

(** * The claims about the views *)

Section ViewSpecs.
Implicit Types (df : frame) (c : column) (l k : list cell).

(** The options of a selector are the values it was built from. *)
Lemma selector_offers l k (x : cell) :
  py_sorted l = Ok k → (x ∈ l ↔ ∃ i, selectbox k i = Some x).
Proof.
  intros Hk. apply py_sorted_Permutation in Hk.
  unfold selectbox. by rewrite <- list_elem_of_lookup, Hk.
Qed.

Lemma filter_by_role_view_spec df (r : value) :
  truthy (Some (Some r)) = true →
  ∃ users n,
    filter_by_role_view df (Some (Some r)) = Some (users, n) ∧ role_users df r users n.
Proof.
  intros Hr. unfold filter_by_role_view. rewrite Hr, filter_matches.
  eexists _, _. split; [done|]. split; [apply NoDup_unique|]. split; [|done].
  intros u. unfold drop_duplicates.
  rewrite elem_of_unique, list_elem_of_fmap. split.
  - intros (row & -> & Hrow). apply list_elem_of_filter in Hrow as [? ?].
    by exists row.
  - intros (row & Hrow & Hrole & ->). exists row. split; [done|].
    by apply list_elem_of_filter.
Qed.

Lemma filter_by_user_view_eq df (u : value) :
  truthy (Some (Some u)) = true →
  filter_by_user_view df (Some (Some u)) =
    Some (length (unique (col Role (filter (λ r, get UserName r = Some u) df))),
          unique (col Role (filter (λ r, get UserName r = Some u) df))).
Proof. intros Hu. unfold filter_by_user_view. by rewrite Hu, filter_matches. Qed.

Lemma elem_of_user_roles df (u : value) (x : cell) :
  x ∈ unique (col Role (filter (λ r, get UserName r = Some u) df)) ↔
  ∃ row, row ∈ df ∧ get UserName row = Some u ∧ get Role row = x.
Proof.
  rewrite elem_of_unique, elem_of_col.
  setoid_rewrite list_elem_of_filter. split.
  - intros (row & [? ?] & ?). by exists row.
  - intros (row & ? & ? & ?). by exists row.
Qed.

End ViewSpecs.




(** C6, as stated, fails, in two ways.  A user name that Python takes as
    false does not pass [if selected_user:]: in the table loaded from a
    report whose user names are 0 and 7 no selection shows the roles of the
    user 0, although no name is missing.  And when a name is missing beside
    a text name the page raises while it builds its selector: in the table
    loaded from a report whose first line leaves the name empty, no
    selection shows the roles of Bob. *)
Lemma C6_counterexample :
  ¬ (∀ f df u, load_data f = Ok df → None ∉ col UserName df →
       Some u ∈ col UserName df →
       ∃ choice n roles,
         page_filter_by_user df choice = Ok (Some (n, roles)) ∧
         user_roles df u n roles) ∧
  ¬ (∀ f df u, load_data f = Ok df → truthy (Some (Some u)) = true →
       Some u ∈ col UserName df →
       ∃ choice n roles,
         page_filter_by_user df choice = Ok (Some (n, roles)) ∧
         user_roles df u n roles).
Proof.
  split; intros H.
  - destruct (H numbered_users_file
                [Row (text "A1") (text "Agt1") (text "U1") (number 0) (text "Admin");
                 Row (text "A2") (text "Agt2") (text "U2") (number 7) (text "Viewer")]
                (VNum (Qc_of_Z 0)))
      as (choice & n & roles & Hpage & _ & Hin & _).
    + vm_compute. reflexivity.
    + unfold col. simpl. rewrite !not_elem_of_cons. split_and!; try done.
      apply not_elem_of_nil.
    + left.
    + assert (text "Admin" ∈ roles) as Hadmin.
      { apply Hin. eexists. split; [by left|]. done. }
      destruct choice as [|[|choice]]; vm_compute in Hpage; try done.
      injection Hpage as <- <-.
      apply list_elem_of_singleton in Hadmin. done.
  - destruct (H nameless_file
                [Row (text "A1") (text "Agt1") (text "U1") None (text "Admin");
                 Row (text "A1") (text "Agt1") (text "U2") (text "Bob") (text "Viewer")]
                (VStr "Bob"))
      as (choice & n & roles & Hpage & _).
    + vm_compute. reflexivity.
    + reflexivity.
    + right. left.
    + unfold page_filter_by_user in Hpage.
      assert (py_sorted (unique (col UserName
                [Row (text "A1") (text "Agt1") (text "U1") None (text "Admin");
                 Row (text "A1") (text "Agt1") (text "U2") (text "Bob") (text "Viewer")]))
              = Raise TypeError) as Hsorted by (by vm_compute).
      rewrite Hsorted in Hpage. done.
Qed.

(** C6 (amended): for a cleaned table whose name selector can be built and
    a user name [u] of it that Python takes as true, the name can be
    selected in the Filter-by-User view, which then lists the distinct roles
    of the rows whose User Name is [u], each once and none missing, and
    reports their number.  On the three example rows and "Alice" these are
    Admin and Viewer, and the count is 2. *)
Theorem C6_filter_by_user :
  (∀ f df names,
     load_data f = Ok df → py_sorted (unique (col UserName df)) = Ok names →
     ∀ u, Some u ∈ col UserName df → truthy (Some (Some u)) = true →
       ∃ choice n roles,
         selectbox names choice = Some (Some u) ∧
         page_filter_by_user df choice = Ok (Some (n, roles)) ∧
         user_roles df u n roles) ∧
  page_filter_by_user example_df 0 =
    Ok (Some (2, [text "Admin"; text "Viewer"])).
Proof.
  split; [|by vm_compute].
  intros f df names Hload Hnames u Hu Htrue.
  apply (elem_of_unique (col UserName df)), (selector_offers _ _ _ Hnames) in Hu
    as [i Hi].
  exists i. unfold page_filter_by_user. rewrite Hnames. simpl. rewrite Hi.
  rewrite filter_by_user_view_eq by done.
  eexists _, _. split; [done|]. split; [done|].
  split; [apply NoDup_unique|]. split; [apply elem_of_user_roles|]. split.
  - intros x. rewrite elem_of_user_roles. intros (row & Hrow & _ & <-).
    by apply (loaded_role_present f df).
  - eexists. split; [apply NoDup_unique|]. split; [apply elem_of_user_roles|done].
Qed.

Lemma C6_filter_by_user_witness :
  ∃ choice n roles,
    selectbox [text "Alice"; text "Bob"] choice = Some (text "Bob") ∧
    page_filter_by_user example_df choice = Ok (Some (n, roles)) ∧
    user_roles example_df (VStr "Bob") n roles.
Proof.
  apply (proj1 C6_filter_by_user example_file example_df [text "Alice"; text "Bob"]).
  - vm_compute. reflexivity.
  - vm_compute. reflexivity.
  - right. right. left.
  - reflexivity.
Defined.

(** C10: when the selector of the Filter-by-User view holds a user name
    that passes [if selected_user:], the view lists the distinct roles of
    that user, each once, in the order in which they first occur among the
    user's rows: one role stands before another in the list exactly when
    its first row for that user precedes the other's in the table; the
    count shown is the length of that list. *)
Theorem C10_roles_by_first_occurrence (df : frame) (names : list cell)
    (choice : nat) (u : value) :
  py_sorted (unique (col UserName df)) = Ok names →
  selectbox names choice = Some (Some u) → truthy (Some (Some u)) = true →
  ∃ n roles,
    page_filter_by_user df choice = Ok (Some (n, roles)) ∧
    NoDup roles ∧
    (∀ x, x ∈ roles ↔
       ∃ row, row ∈ df ∧ get UserName row = Some u ∧ get Role row = x) ∧
    n = length roles ∧
    ∀ x y,
      index_of x roles < index_of y roles ↔
      first_index (λ row, get UserName row = Some u ∧ get Role row = x) df <
      first_index (λ row, get UserName row = Some u ∧ get Role row = y) df.
Proof.
  intros Hnames Hsel Htrue. unfold page_filter_by_user.
  rewrite Hnames. simpl. rewrite Hsel, filter_by_user_view_eq by done.
  eexists _, _. split; [done|]. split; [apply NoDup_unique|].
  split; [apply elem_of_user_roles|]. split; [done|].
  intros x y. rewrite index_of_unique. unfold col. apply index_of_first_index.
Qed.

Lemma C10_roles_by_first_occurrence_witness :
  ∃ n roles,
    page_filter_by_user example_df 0 = Ok (Some (n, roles)) ∧
    NoDup roles ∧
    (∀ x, x ∈ roles ↔
       ∃ row, row ∈ example_df ∧ get UserName row = Some (VStr "Alice") ∧
         get Role row = x) ∧
    n = length roles ∧
    ∀ x y,
      index_of x roles < index_of y roles ↔
      first_index (λ row, get UserName row = Some (VStr "Alice") ∧ get Role row = x)
        example_df <
      first_index (λ row, get UserName row = Some (VStr "Alice") ∧ get Role row = y)
        example_df.
Proof.
  apply (C10_roles_by_first_occurrence example_df [text "Alice"; text "Bob"] 0
           (VStr "Alice")).
  - vm_compute. reflexivity.
  - reflexivity.
  - reflexivity.
Defined.

(** C4: the role counts of the statistics view hold one entry per role of
    the table, whose count is the number of rows carrying that role (a user
    counts once per row), and the entries are in descending order of
    count. *)
Theorem C4_role_counts (df : frame) :
  let rc := role_counts (page_statistics df) in
  NoDup rc.*1 ∧
  (∀ x n, (x, n) ∈ rc ↔
     Some x ∈ col Role df ∧ n = length (filter (λ r, get Role r = Some x) df)) ∧
  StronglySorted (λ p q, q.2 ≤ p.2) rc.
Proof.
  simpl. unfold value_counts. split; [|split].
  - rewrite sort_values_desc_Permutation, fst_fmap_pair.
    apply NoDup_unique.
  - intros x n. rewrite sort_values_desc_Permutation, list_elem_of_fmap.
    setoid_rewrite elem_of_unique. setoid_rewrite elem_of_dropna.
    setoid_rewrite count_in_column. split.
    + by intros (v & [= -> ->] & Hv).
    + intros [Hx ->]. by exists x.
  - apply StronglySorted_sort_values_desc.
Qed.

(** C5: the agent user-count view holds one entry per agent name of the
    table, whose count is the number of distinct User ID values among the
    rows with that Agent Name; the statistics view reports the same entries,
    in descending order of count. *)
Theorem C5_users_per_agent (df : frame) :
  let counts := page_agent_user_counts df in
  let stats := users_per_agent (page_statistics df) in
  NoDup counts.*1 ∧
  (∀ a n, (a, n) ∈ counts ↔
     Some a ∈ col AgentName df ∧
     distinct_count
       (λ u, ∃ r, r ∈ df ∧ get AgentName r = Some a ∧ get UserID r = Some u) n) ∧
  stats ≡ₚ counts ∧
  StronglySorted (λ p q, q.2 ≤ p.2) stats.
Proof.
  simpl. unfold page_agent_user_counts.
  assert (∀ a, distinct_count
            (λ u, ∃ r, r ∈ df ∧ get AgentName r = Some a ∧ get UserID r = Some u)
            (nunique (col UserID (group AgentName a df)))) as Hcount.
  { intros a. destruct (nunique_distinct_count (col UserID (group AgentName a df)))
      as (l & Hl & Hin & Hlen).
    exists l. split; [done|]. split; [|done].
    intros u. rewrite Hin, elem_of_col. setoid_rewrite elem_of_group.
    split; intros (r & ? & ?); exists r; tauto. }
  split; [|split; [|split]].
  - rewrite fst_nunique_by. apply NoDup_group_keys.
  - intros a n. rewrite elem_of_nunique_by. split.
    + intros [Ha ->]. done.
    + intros [Ha Hn]. split; [done|].
      by apply (distinct_count_unique _ _ _ Hn).
  - apply sort_values_desc_Permutation.
  - apply StronglySorted_sort_values_desc.
Qed.

Section AgentUsersRoles.
Variables (df : frame) (a : value).
Hypothesis roles_text : ∀ r, r ∈ df → is_str (get Role r) = true.

Local Abbreviation df_filtered := (filter (λ r, get AgentName r = Some a) df).

(** The roles collected for the user [u] under the agent [a]. *)
Local Abbreviation roles_of u := (unique (col Role (group UserName u df_filtered))).






End AgentUsersRoles.





(** * Further properties of the views *)

Section Totals.
Implicit Types (df : frame) (c : column) (s : list cell).

Lemma filter_Forall_id {A} (P : A → Prop) `{!∀ x, Decision (P x)} (l : list A) :
  Forall P l → filter P l = l.
Proof.
  induction 1 as [|x l Hx Hl IH]; [done|].
  rewrite filter_cons_True by done. by f_equal.
Qed.

Lemma sum_list_with_add {A} (f g : A → nat) (l : list A) :
  sum_list_with (λ x, f x + g x) l = sum_list_with f l + sum_list_with g l.
Proof. induction l as [|x l IH]; simpl; lia. Qed.

Lemma sum_list_with_fmap' {A B} (f : B → nat) (g : A → B) (l : list A) :
  sum_list_with f (g <$> l) = sum_list_with (f ∘ g) l.
Proof.
  induction l as [|x l IH]; [done|].
  rewrite fmap_cons. cbn [sum_list_with]. by rewrite IH.
Qed.

Lemma sum_indicator_absent (l : list value) (x : value) :
  x ∉ l → sum_list_with (λ v, if decide (x = v) then 1 else 0) l = 0.
Proof.
  induction l as [|y l IH]; [done|]. rewrite not_elem_of_cons.
  intros [Hne Hx]. simpl. rewrite decide_False by done. by rewrite IH.
Qed.

Lemma sum_indicator_present (l : list value) (x : value) :
  NoDup l → x ∈ l → sum_list_with (λ v, if decide (x = v) then 1 else 0) l = 1.
Proof.
  induction 1 as [|y l Hy Hl IH]; [by rewrite elem_of_nil|].
  rewrite elem_of_cons. simpl. destruct (decide (x = y)) as [->|Hne].
  - intros _. by rewrite sum_indicator_absent.
  - intros [?|Hx]; [done|]. by rewrite IH.
Qed.

(** Over a duplicate-free list of values that covers [t], the occurrence
    counts add up to the length of [t]. *)
Lemma sum_occurrences (l t : list value) :
  NoDup l → (∀ x, x ∈ t → x ∈ l) →
  sum_list_with (λ v, length (filter (λ x, x = v) t)) l = length t.
Proof.
  intros Hl. induction t as [|x t IH]; intros Ht.
  - clear. induction l as [|y l IHl]; [done|]. simpl. apply IHl.
  - assert (sum_list_with (λ v, length (filter (λ y, y = v) (x :: t))) l =
            sum_list_with (λ v, (if decide (x = v) then 1 else 0) +
                                length (filter (λ y, y = v) t)) l) as ->.
    { clear. induction l as [|v l IHl]; [done|].
      cbn [sum_list_with]. rewrite IHl. f_equal. rewrite filter_cons.
      by destruct (decide (x = v)). }
    rewrite sum_list_with_add, (sum_indicator_present l x Hl)
      by (apply Ht; by left).
    rewrite IH by (intros y Hy; apply Ht; by right). done.
Qed.

Lemma count_dropna s (v : value) :
  length (filter (λ x, x = Some v) s) = length (filter (λ x, x = v) (dropna s)).
Proof.
  unfold dropna. induction s as [|[y|] s IH]; [done| |].
  - simpl. rewrite !filter_cons.
    destruct (decide (Some y = Some v)) as [[= ->]|Hne].
    + rewrite decide_True by done. simpl. by rewrite IH.
    + rewrite decide_False by congruence. done.
  - simpl. by rewrite filter_cons_False.
Qed.

Lemma length_dropna_col c df :
  length (dropna (col c df)) = length (filter (λ r, is_Some (get c r)) df).
Proof.
  unfold dropna, col. induction df as [|r df IH]; [done|].
  rewrite fmap_cons, filter_cons.
  destruct (decide (is_Some (get c r))) as [[x Hx]|Hn].
  - rewrite Hx. simpl. by f_equal.
  - destruct (get c r) as [x|]; [by destruct Hn|done].
Qed.

Lemma value_counts_total s :
  sum_list (value_counts s).*2 = length (dropna s).
Proof.
  unfold value_counts. rewrite sort_values_desc_Permutation.
  rewrite !sum_list_with_fmap'.
  rewrite <- (sum_occurrences (unique (dropna s)) (dropna s)).
  - induction (unique (dropna s)) as [|v l IH]; [done|].
    simpl. by rewrite IH, count_dropna.
  - apply NoDup_unique.
  - intros x. by rewrite elem_of_unique.
Qed.

Lemma length_unique_from_le {A} `{EqDecision A} (seen l : list A) :
  length (unique_from seen l) ≤ length l.
Proof.
  revert seen. induction l as [|x l IH]; intros seen; simpl; [done|].
  destruct (decide (x ∈ seen)); simpl; [specialize (IH seen)|specialize (IH (x :: seen))];
    lia.
Qed.

Lemma length_unique_le {A} `{EqDecision A} (l : list A) :
  length (unique l) ≤ length l.
Proof. apply length_unique_from_le. Qed.

Lemma length_unique_subseteq {A} `{EqDecision A} (l k : list A) :
  (∀ x, x ∈ l → x ∈ k) → length (unique l) ≤ length (unique k).
Proof.
  intros Hlk. apply submseteq_length, NoDup_submseteq; [apply NoDup_unique|].
  intros x. rewrite !elem_of_unique. apply Hlk.
Qed.
End Totals.

(** X1: the three metrics of the statistics view are the numbers of
    distinct non-missing User ID, Agent Name and Role values of the
    table. *)
Theorem X1_statistics_metrics (df : frame) :
  let st := page_statistics df in
  distinct_count (λ u, ∃ r, r ∈ df ∧ get UserID r = Some u) (num_users st) ∧
  distinct_count (λ a, ∃ r, r ∈ df ∧ get AgentName r = Some a) (num_agents st) ∧
  distinct_count (λ x, ∃ r, r ∈ df ∧ get Role r = Some x) (num_roles st).
Proof.
  assert (∀ c, distinct_count (λ v, ∃ r, r ∈ df ∧ get c r = Some v)
                 (nunique (col c df))) as H.
  { intros c. destruct (nunique_distinct_count (col c df)) as (l & Hl & Hin & Hlen).
    exists l. split; [done|]. split; [|done].
    intros v. by rewrite Hin, elem_of_col. }
  pose proof (H UserID). pose proof (H AgentName). pose proof (H Role). done.
Qed.

(** X2: the metrics agree with the tables shown beside them: there are as
    many rows in the per-agent tables (statistics view and agent user-count
    view) as Total Unique Agents, and as many rows in the role counts as
    Total Unique Roles. *)
Theorem X2_metrics_match_tables (df : frame) :
  let st := page_statistics df in
  length (page_agent_user_counts df) = num_agents st ∧
  length (users_per_agent st) = num_agents st ∧
  length (role_counts st) = num_roles st.
Proof.
  simpl. unfold page_agent_user_counts, nunique_by, groupby, group_keys,
    value_counts, nunique.
  rewrite !sort_values_desc_Permutation, !length_fmap.
  by rewrite sort_keys_Permutation.
Qed.

(** X3: the role counts of the statistics view add up to the number of
    rows that carry a role; on a table returned by the loader that is the
    number of rows of the table. *)
Theorem X3_role_counts_total :
  (∀ df, sum_list (role_counts (page_statistics df)).*2 =
           length (filter (λ r, is_Some (get Role r)) df)) ∧
  (∀ f df, load_data f = Ok df →
     sum_list (role_counts (page_statistics df)).*2 = length df).
Proof.
  assert (∀ df, sum_list (role_counts (page_statistics df)).*2 =
                  length (filter (λ r, is_Some (get Role r)) df)) as Hsum.
  { intros df. simpl. by rewrite value_counts_total, length_dropna_col. }
  split; [done|]. intros f df Hload. rewrite Hsum. f_equal.
  assert (Forall (λ r, is_Some (get Role r)) df) as Hall
    by (apply Forall_forall; intros r; by apply (loaded_role_present f)).
  by apply filter_Forall_id.
Qed.

Lemma X3_role_counts_total_witness :
  sum_list (role_counts (page_statistics example_df)).*2 = length example_df.
Proof.
  apply (proj2 X3_role_counts_total example_file example_df).
  vm_compute. reflexivity.
Defined.

Section ViewFacts.
Implicit Types (df : frame) (c : column) (s : list cell).

Lemma elem_of_value_counts s x n :
  (x, n) ∈ value_counts s ↔
  Some x ∈ s ∧ n = length (filter (λ y, y = Some x) s).
Proof.
  unfold value_counts. rewrite sort_values_desc_Permutation, list_elem_of_fmap.
  setoid_rewrite elem_of_unique. setoid_rewrite elem_of_dropna. split.
  - by intros (v & [= -> ->] & Hv).
  - intros [Hx ->]. by exists x.
Qed.

Lemma mapM_Ok_inv {A B} (f : A → result B) (l : list A) (k : list B) :
  mapM f l = Ok k → Forall2 (λ x y, f x = Ok y) l k.
Proof.
  revert k. induction l as [|x l IH]; intros k; simpl.
  - intros [= <-]. constructor.
  - destruct (f x) as [y|e] eqn:Hy; simpl; [|done].
    destruct (mapM f l) as [ys|e] eqn:Hys; simpl; [|done].
    intros [= <-]. constructor; [done|]. by apply IH.
Qed.



Lemma Forall2_fmap_eq {A B C} (g : A → C) (h : B → C) (l : list A) (k : list B) :
  Forall2 (λ x y, g x = h y) l k → g <$> l = h <$> k.
Proof. induction 1 as [|x y l k Hxy Hlk IH]; [done|]. by rewrite !fmap_cons, Hxy, IH. Qed.

Lemma Forall2_elem_of_r {A B} (P : A → B → Prop) (l : list A) (k : list B) y :
  Forall2 P l k → y ∈ k → ∃ x, x ∈ l ∧ P x y.
Proof.
  induction 1 as [|x y' l k Hxy Hlk IH]; [by rewrite elem_of_nil|].
  rewrite elem_of_cons. intros [->|Hy].
  - exists x. split; [by left|done].
  - destruct (IH Hy) as (x' & Hx' & HP). exists x'. split; [by right|done].
Qed.

(** What a successful run of lines 77-86 shows, read back from its result:
    the users are the group labels and each count is that of the roles
    collected for the user. *)
Lemma agent_users_roles_view_inv df (a : value) rows :
  agent_users_roles_view df (Some (Some a)) = Some (Ok rows) →
  ar_user_name <$> rows =
    group_keys UserName (filter (λ r, get AgentName r = Some a) df) ∧
  ∀ o, o ∈ rows →
    ar_number_of_roles o =
      length (unique (col Role (group UserName (ar_user_name o)
                                  (filter (λ r, get AgentName r = Some a) df)))).
Proof.
  unfold agent_users_roles_view. destruct (truthy (Some (Some a))); [|done].
  rewrite filter_matches.
  intros [= Hmap]. apply mapM_Ok_inv in Hmap.
  unfold groupby in Hmap. rewrite <- list_fmap_compose in Hmap.
  apply Forall2_fmap_l in Hmap.
  set (dfa := filter (λ r, get AgentName r = Some a) df) in *.
  assert (Forall2 (λ k o, k = ar_user_name o ∧
             ar_number_of_roles o = length (unique (col Role (group UserName k dfa))))
            (group_keys UserName dfa) rows) as Hrows.
  { eapply Forall2_impl; [exact Hmap|]. intros k o. simpl.
    destruct (join_sorted _); simpl; [|done]. by intros [= <-]. }
  split.
  - symmetry. rewrite <- (list_fmap_id (group_keys UserName dfa)).
    apply Forall2_fmap_eq. eapply Forall2_impl; [exact Hrows|]. by intros k o [-> _].
  - intros o Ho. destruct (Forall2_elem_of_r _ _ _ _ Hrows Ho) as (k & _ & -> & Hn).
    done.
Qed.

End ViewFacts.

(** X4: no agent is credited with more users than Total Unique Users: every
    count of the agent user-count view is at most the [num_users] metric of
    the statistics view. *)
Theorem X4_agent_count_le_num_users (df : frame) (a : value) (n : nat) :
  (a, n) ∈ page_agent_user_counts df → n ≤ num_users (page_statistics df).
Proof.
  unfold page_agent_user_counts. rewrite elem_of_nunique_by. intros [_ ->].
  simpl. unfold nunique. apply length_unique_subseteq. intros u.
  rewrite !elem_of_dropna, !elem_of_col.
  intros (r & Hr & Hu). apply elem_of_group in Hr as [Hr _]. by exists r.
Qed.

Lemma X4_agent_count_le_num_users_witness :
  1 ≤ num_users (page_statistics example_df).
Proof.
  apply (X4_agent_count_le_num_users example_df (VStr "Agt1") 1).
  vm_compute. left.
Defined.

(** X5: for one role, the Total users figure of the Filter-by-Role view
    is at least 1 and at most the count shown for that role in the role
    counts of the statistics view: users are counted once, rows every
    time. *)
Theorem X5_role_users_le_role_count (df : frame) (r : value)
    (users : list (cell * cell * cell)) (n c : nat) :
  filter_by_role_view df (Some (Some r)) = Some (users, n) →
  (r, c) ∈ role_counts (page_statistics df) →
  1 ≤ n ≤ c.
Proof.
  unfold filter_by_role_view. destruct (truthy (Some (Some r))); [|done].
  rewrite filter_matches.
  intros [= <- <-]. simpl. rewrite elem_of_value_counts, count_in_column.
  intros [Hr ->]. unfold drop_duplicates. split.
  - apply elem_of_col in Hr as (row & Hrow & Hrole).
    assert ((get UserID row, get UserName row, get AgentName row) ∈
              unique ((λ r0, (get UserID r0, get UserName r0, get AgentName r0)) <$>
                        filter (λ r0, get Role r0 = Some r) df)) as Hin.
    { rewrite elem_of_unique, list_elem_of_fmap. exists row. split; [done|].
      by apply list_elem_of_filter. }
    destruct (unique _); [by apply elem_of_nil in Hin|simpl; lia].
  - etrans; [apply length_unique_le|]. by rewrite length_fmap.
Qed.

Lemma X5_role_users_le_role_count_witness : 1 ≤ 2 ≤ 2.
Proof.
  apply (X5_role_users_le_role_count example_df (VStr "Admin")
           [(text "U1", text "Alice", text "Agt1"); (text "U2", text "Bob", text "Agt2")]
           2 2).
  - vm_compute. reflexivity.
  - vm_compute. left.
Defined.

(** X6: a user's Number of Roles under one agent (Agent -> Users -> Roles
    view) never exceeds the Total roles the Filter-by-User view reports for
    that user name, which counts the roles under every agent. *)
Theorem X6_agent_roles_le_user_roles (df : frame) (a : value)
    (rows : list agent_row) (o : agent_row) (n : nat) (roles : list cell) :
  agent_users_roles_view df (Some (Some a)) = Some (Ok rows) → o ∈ rows →
  filter_by_user_view df (Some (Some (ar_user_name o))) = Some (n, roles) →
  ar_number_of_roles o ≤ n.
Proof.
  intros Hpage Ho. apply agent_users_roles_view_inv in Hpage as [_ Hn].
  rewrite (Hn o Ho). unfold filter_by_user_view.
  destruct (truthy _); [|done]. rewrite filter_matches. intros [= <- <-].
  apply length_unique_subseteq. intros x. rewrite !elem_of_col.
  intros (r & Hr & Hx). exists r. split; [|done].
  apply elem_of_group in Hr as [Hr Hu]. apply list_elem_of_filter in Hr as [_ Hr].
  by apply list_elem_of_filter.
Qed.

Lemma X6_agent_roles_le_user_roles_witness : 2 ≤ 2.
Proof.
  apply (X6_agent_roles_le_user_roles example_df (VStr "Agt1")
           [AgentRow (VStr "Alice") ("Admin" ++ newline ++ "Viewer") 2]
           (AgentRow (VStr "Alice") ("Admin" ++ newline ++ "Viewer") 2)
           2 [text "Admin"; text "Viewer"]).
  - vm_compute. reflexivity.
  - left.
  - vm_compute. reflexivity.
Defined.

(** X7: what lines 43-48 show for a role is the list of the users of that
    role, each once, in the order in which they first appear with that role
    in the table, and its length. *)
Theorem X7_role_users_by_first_occurrence (df : frame) (r : value)
    (users : list (cell * cell * cell)) (n : nat) :
  filter_by_role_view df (Some (Some r)) = Some (users, n) →
  role_users df r users n ∧
  ∀ x y,
    index_of x users < index_of y users ↔
    first_index (λ row, get Role row = Some r ∧
                   (get UserID row, get UserName row, get AgentName row) = x) df <
    first_index (λ row, get Role row = Some r ∧
                   (get UserID row, get UserName row, get AgentName row) = y) df.
Proof.
  intros Hview.
  assert (truthy (Some (Some r)) = true) as Htrue.
  { unfold filter_by_role_view in Hview. by destruct (truthy (Some (Some r))). }
  destruct (filter_by_role_view_spec df r Htrue) as (users' & n' & Hview' & Hspec).
  rewrite Hview in Hview'. injection Hview' as <- <-. split; [done|].
  unfold filter_by_role_view in Hview. rewrite Htrue, filter_matches in Hview.
  injection Hview as <- _. intros x y. unfold drop_duplicates.
  rewrite index_of_unique. apply index_of_first_index.
Qed.

Lemma X7_role_users_by_first_occurrence_witness :
  role_users example_df (VStr "Admin")
    [(text "U1", text "Alice", text "Agt1"); (text "U2", text "Bob", text "Agt2")] 2 ∧
  ∀ x y,
    index_of x [(text "U1", text "Alice", text "Agt1"); (text "U2", text "Bob", text "Agt2")] <
    index_of y [(text "U1", text "Alice", text "Agt1"); (text "U2", text "Bob", text "Agt2")] ↔
    first_index (λ row, get Role row = Some (VStr "Admin") ∧
                   (get UserID row, get UserName row, get AgentName row) = x) example_df <
    first_index (λ row, get Role row = Some (VStr "Admin") ∧
                   (get UserID row, get UserName row, get AgentName row) = y) example_df.
Proof.
  apply (X7_role_users_by_first_occurrence example_df (VStr "Admin")).
  vm_compute. reflexivity.
Defined.

(** X8: on a cleaned table the grouped tables come out with each key once,
    in ascending order of the key (texts by code point, numbers by value):
    the agent user-count view by Agent Name and, for any selected agent,
    the rows of lines 77-86 by User Name. *)
Theorem X8_grouped_tables_sorted (f : file) (df : frame) :
  load_data f = Ok df →
  (StronglySorted value_le (page_agent_user_counts df).*1 ∧
   NoDup (page_agent_user_counts df).*1) ∧
  ∀ a rows, agent_users_roles_view df (Some (Some a)) = Some (Ok rows) →
    StronglySorted value_le (ar_user_name <$> rows) ∧ NoDup (ar_user_name <$> rows).
Proof.
  intros _. split.
  - unfold page_agent_user_counts. rewrite fst_nunique_by.
    split; [apply StronglySorted_sort_keys|apply NoDup_group_keys].
  - intros a rows Hpage. apply agent_users_roles_view_inv in Hpage as [-> _].
    split; [apply StronglySorted_sort_keys|apply NoDup_group_keys].
Qed.

Lemma X8_grouped_tables_sorted_witness :
  StronglySorted value_le
    (ar_user_name <$> [AgentRow (VStr "Alice") ("Admin" ++ newline ++ "Viewer") 2]) ∧
  NoDup (ar_user_name <$> [AgentRow (VStr "Alice") ("Admin" ++ newline ++ "Viewer") 2]).
Proof.
  apply (proj2 (X8_grouped_tables_sorted example_file example_df eq_refl) (VStr "Agt1")).
  vm_compute. reflexivity.
Defined.
(** * Further properties of the loader *)

Section CleanFacts.
Implicit Types (df : frame) (c : column) (r : row) (s : list cell).

Lemma row_ext r1 r2 : (∀ c, get c r1 = get c r2) → r1 = r2.
Proof.
  intros H. destruct r1, r2.
  pose proof (H AgentCode). pose proof (H AgentName). pose proof (H UserID).
  pose proof (H UserName). pose proof (H Role). simpl in *. congruence.
Qed.

Lemma frame_ext df1 df2 : (∀ c, col c df1 = col c df2) → df1 = df2.
Proof.
  intros H. apply list_eq. intros i.
  assert (∀ c, get c <$> df1 !! i = get c <$> df2 !! i) as Hi.
  { intros c. unfold col in H. by rewrite <- !list_lookup_fmap, H. }
  destruct (df1 !! i) as [r1|], (df2 !! i) as [r2|]; simpl in Hi;
    try done; try (by specialize (Hi Role)).
  f_equal. apply row_ext. intros c. specialize (Hi c). by injection Hi.
Qed.

Lemma ffill_from_present prev s : Forall is_Some s → ffill_from prev s = s.
Proof.
  intros Hs. revert prev. induction Hs as [|x s [y ->] Hs IH]; intros prev; [done|].
  simpl. by rewrite IH.
Qed.

Lemma ffill_filled s : filled s → ffill s = s.
Proof.
  unfold ffill. induction s as [|[x|] s IH]; simpl; [done| |].
  - intros Hs. by rewrite ffill_from_present.
  - intros Hs. by rewrite IH.
Qed.

Lemma ffill_from_Some_present x s : Forall is_Some (ffill_from (Some x) s).
Proof.
  revert x. induction s as [|[y|] s IH]; intros x; simpl; [constructor|..];
    (constructor; [by eexists|apply IH]).
Qed.

Lemma filled_ffill s : filled (ffill s).
Proof.
  unfold ffill. induction s as [|[x|] s IH]; simpl; [done| |done].
  apply ffill_from_Some_present.
Qed.

Lemma filled_sublist (s1 s2 : list cell) :
  s1 `sublist_of` s2 → filled s2 → filled s1.
Proof.
  assert (∀ l k : list cell, l `sublist_of` k → Forall is_Some k → Forall is_Some l)
    as Hall.
  { induction 1 as [|x l k Hlk IH|x l k Hlk IH]; intros HF; [done|..];
      apply Forall_cons in HF as [Hx Hk]; [constructor|]; auto. }
  assert (∀ k : list cell, Forall is_Some k → filled k) as Hfilled.
  { intros k. induction 1 as [|x k [y ->] Hk IH]; simpl; done. }
  induction 1 as [|x l k Hlk IH|x l k Hlk IH]; [done|..].
  - destruct x as [y|]; simpl; [|done]. by apply Hall.
  - destruct x as [y|]; simpl; [|done]. intros Hk. apply IH. by apply Hfilled.
Qed.

(** Forward fill never alters a value that is present. *)
Lemma ffill_lookup_present s i x :
  s !! i = Some (Some x) → ffill s !! i = Some (Some x).
Proof.
  intros Hi.
  destruct (lookup_lt_is_Some_2 (ffill s) i) as [v Hv].
  { rewrite length_ffill. by eapply lookup_lt_Some. }
  rewrite Hv. f_equal. apply ffill_lookup in Hv. destruct v as [y|]; simpl in Hv.
  - destruct Hv as (j & Hj & Hjy & Hgap).
    destruct (decide (j = i)) as [->|Hne]; [congruence|].
    rewrite Hgap in Hi by lia. done.
  - rewrite Hv in Hi by lia. done.
Qed.

Lemma filter_none {A} (P : A → Prop) `{!∀ x, Decision (P x)} (l : list A) :
  (∀ x, x ∈ l → ¬ P x) → filter P l = [].
Proof.
  intros Hnot. destruct (filter P l) as [|x k] eqn:Hf; [done|].
  assert (x ∈ filter P l) as Hx by (rewrite Hf; by left).
  apply list_elem_of_filter in Hx as [HP Hx]. by destruct (Hnot x Hx).
Qed.

Lemma not_Role_ffill_cols : Role ∉ ffill_cols.
Proof.
  unfold ffill_cols. rewrite !not_elem_of_cons. split_and!; try done.
  apply not_elem_of_nil.
Qed.

(** Each source row that carries a role survives cleaning with every value
    it had. *)
Lemma clean_keeps df r :
  r ∈ df → is_Some (get Role r) →
  ∃ r', r' ∈ clean df ∧ ∀ c, is_Some (get c r) → get c r' = get c r.
Proof.
  intros Hr Hrole. apply list_elem_of_lookup in Hr as [i Hi].
  destruct (lookup_lt_is_Some_2 (ffill_columns ffill_cols df) i) as [r' Hr'].
  { rewrite length_ffill_columns. by eapply lookup_lt_Some. }
  assert (∀ c, is_Some (get c r) → get c r' = get c r) as Hsame.
  { intros c [x Hx].
    assert (col c (ffill_columns ffill_cols df) !! i = Some (get c r')) as Hc
      by (unfold col; by rewrite list_lookup_fmap, Hr').
    assert (col c df !! i = Some (Some x)) as Hsrc
      by (unfold col; by rewrite list_lookup_fmap, Hi, <- Hx).
    rewrite col_ffill_columns in Hc. destruct (decide (c ∈ ffill_cols)).
    - apply ffill_lookup_present in Hsrc. congruence.
    - congruence. }
  exists r'. split; [|done].
  unfold clean, drop_missing_role. apply list_elem_of_filter. split.
  - rewrite (Hsame Role Hrole). by destruct Hrole as [x ->].
  - apply list_elem_of_lookup. by exists i.
Qed.
End CleanFacts.

(** X9: cleaning is idempotent: forward-filling and dropping the rows
    without a role again leaves a cleaned table as it is. *)
Theorem X9_clean_idempotent (df : frame) : clean (clean df) = clean df.
Proof.
  assert (ffill_columns ffill_cols (clean df) = clean df) as Hfill.
  { apply frame_ext. intros c. rewrite col_ffill_columns.
    destruct (decide (c ∈ ffill_cols)) as [Hc|Hc]; [|done].
    apply ffill_filled.
    apply (filled_sublist _ (col c (ffill_columns ffill_cols df))).
    - unfold clean, drop_missing_role, col. apply fmap_sublist, sublist_filter.
    - rewrite col_ffill_columns, decide_True by done. apply filled_ffill. }
  unfold clean at 1. rewrite Hfill. unfold clean, drop_missing_role.
  apply filter_Forall_id, Forall_forall. intros r.
  rewrite list_elem_of_filter. tauto.
Qed.

(** X10: the loader only fills gaps and drops role-less lines.  Every line
    of the file that has a role is retained with each value it had, so a
    line with all five fields present appears in the cleaned table
    unchanged. *)
Theorem X10_present_values_kept (f : file) (src df : frame) (r : row) :
  read_source f = Ok src → load_data f = Ok df → r ∈ src → is_Some (get Role r) →
  (∃ r', r' ∈ df ∧ ∀ c, is_Some (get c r) → get c r' = get c r) ∧
  ((∀ c, is_Some (get c r)) → r ∈ df).
Proof.
  intros Hsrc. rewrite load_data_Ok. intros (src' & Hsrc' & ->) Hr Hrole.
  assert (src' = src) as -> by congruence.
  destruct (clean_keeps _ r Hr Hrole) as (r' & Hr' & Hsame).
  split; [by exists r'|]. intros Hall.
  replace r with r'; [done|]. apply row_ext. intros c. by apply Hsame.
Qed.

Lemma X10_present_values_kept_witness :
  (∃ r', r' ∈ example_df ∧
     ∀ c, is_Some (get c (Row None None None None (text "Viewer"))) →
       get c r' = get c (Row None None None None (text "Viewer"))) ∧
  ((∀ c, is_Some (get c (Row None None None None (text "Viewer")))) →
   Row None None None None (text "Viewer") ∈ example_df).
Proof.
  apply (X10_present_values_kept example_file
           [Row (text "A1") (text "Agt1") (text "U1") (text "Alice") (text "Admin");
            Row None None None None (text "Viewer");
            Row (text "A2") (text "Agt2") (text "U2") (text "Bob") (text "Admin")]
           example_df
           (Row None None None None (text "Viewer"))).
  - vm_compute. reflexivity.
  - vm_compute. reflexivity.
  - right. left.
  - simpl. by eexists.
Defined.

(** X11: the cleaned table is empty exactly when the file is read as a
    five-column table no line of which has a role (in particular for a file
    with a header only); lines without a role never reach the table,
    whatever else they hold. *)
Theorem X11_empty_table (f : file) :
  load_data f = Ok [] ↔
  ∃ src, read_source f = Ok src ∧ ∀ r, r ∈ src → get Role r = None.
Proof.
  rewrite load_data_Ok. split.
  - intros (src & Hsrc & Hclean). exists src. split; [done|]. intros r Hr.
    destruct (get Role r) as [x|] eqn:Hrole; [|done].
    destruct (clean_keeps src r Hr) as (r' & Hr' & _); [by rewrite Hrole|].
    rewrite <- Hclean in Hr'. by apply elem_of_nil in Hr'.
  - intros (src & Hsrc & Hnone). exists src. split; [done|].
    symmetry. unfold clean, drop_missing_role. apply filter_none.
    intros r Hr.
    assert (get Role r ∈ col Role (ffill_columns ffill_cols src))
      as Hin by (apply elem_of_col; by exists r).
    rewrite col_ffill_columns, decide_False in Hin by apply not_Role_ffill_cols.
    apply elem_of_col in Hin as (r0 & Hr0 & Heq). rewrite <- Heq.
    by rewrite (Hnone r0 Hr0).
Qed.

Lemma X11_empty_table_witness :
  load_data (Lines column_names
               [[FText "A1"; FText "Agt1"; FText "U1"; FText "Alice"; FNa]]) = Ok [].
Proof.
  apply (proj2 (X11_empty_table _)).
  exists [Row (text "A1") (text "Agt1") (text "U1") (text "Alice") None].
  split; [vm_compute; reflexivity|]. intros r Hr.
  apply list_elem_of_singleton in Hr. by subst r.
Defined.

(** * The selectors and the navigation *)

Section Pages.
Implicit Types (df : frame) (f : file) (choice : nat).




End Pages.






